(** * The Vagrant inventory plugin ([vagrant.py]): model and properties

    The plugin shells out to [vagrant], reads its machine-readable output,
    builds a dictionary of machines (the snapshot), optionally stores it in
    the inventory cache, and fills the Ansible inventory from it.

    Modelling choices, all read off the source:
    - text is [string], one character per byte; both parsers take the text
      [str(output)] of a process and cut it where the source does, at the
      four characters of ['\\r\\n']; [str(output)] is the output itself under
      Python 2 and [Py.bytes_repr output] under Python 3, and the lines of an
      output at its own line boundaries are [output_lines];
    - [int] and [str] follow CPython 3 on ASCII text, with no limit on the
      number of digits; [os.path.isabs] is the POSIX one;
    - Python dictionaries are [gmap]s, the inventory's groups and hosts are
      [gset]s; [results.items()] is [map_to_list], and the loop over it gives
      the same inventory in any order ([populate_any_order]);
    - statements run in a small state-and-exception monad over a [World]
      holding the working directory, the subprocess calls made so far, what
      was printed, the cache and the inventory;
    - a local variable that may be unbound is an [option]. *)

From Stdlib Require Import ZArith String Ascii DecimalString.
From stdpp Require Import gmap strings list fin_maps.

Local Open Scope string_scope.
Local Open Scope Z_scope.
Set Warnings "-clear-no-such-hyp".

(** ** Python text primitives *)

Module Py.

(** [s.split(sep)] for a non-empty [sep]: the text is cut at the
    non-overlapping occurrences of [sep], scanning from the left.  [skip]
    counts the characters of a separator that are still to be dropped. *)
Fixpoint split_from (sep : string) (skip : nat) (s : string) : list string :=
  match s with
  | EmptyString => [EmptyString]
  | String c s' =>
      match skip with
      | S k => split_from sep k s'
      | O =>
          if String.prefix sep s
          then EmptyString :: split_from sep (String.length sep - 1) s'
          else match split_from sep O s' with
               | piece :: rest => String c piece :: rest
               | [] => [String c EmptyString]
               end
      end
  end.

Definition split (sep s : string) : list string := split_from sep 0 s.

(** [sep.join(pieces)] *)
Fixpoint join (sep : string) (pieces : list string) : string :=
  match pieces with
  | [] => EmptyString
  | [p] => p
  | p :: rest => p ++ sep ++ join sep rest
  end.

(** [parts[i]] used under a [len(parts)] guard. *)
Definition item (parts : list string) (i : nat) : string :=
  nth i parts EmptyString.

(** Characters [int()] and [strip()] treat as white space. *)
Definition is_space (c : ascii) : bool :=
  let n := nat_of_ascii c in
  ((9 <=? n) && (n <=? 13) || (28 <=? n) && (n <=? 32))%nat.

Fixpoint lstrip (s : string) : string :=
  match s with
  | String c s' => if is_space c then lstrip s' else s
  | EmptyString => EmptyString
  end.

Fixpoint rev_onto (s acc : string) : string :=
  match s with
  | EmptyString => acc
  | String c s' => rev_onto s' (String c acc)
  end.

Definition rev (s : string) : string := rev_onto s EmptyString.
Definition rstrip (s : string) : string := rev (lstrip (rev s)).
Definition strip (s : string) : string := rstrip (lstrip s).

Definition digit_of (c : ascii) : option Z :=
  let n := nat_of_ascii c in
  if ((48 <=? n) && (n <=? 57))%nat then Some (Z.of_nat n - 48) else None.

(** The digits of a decimal literal; a single underscore may stand between
    two digits.  [after_digit] tells whether the previous character was a
    digit. *)
Fixpoint digits (acc : Z) (after_digit : bool) (s : string) : option Z :=
  match s with
  | EmptyString => if after_digit then Some acc else None
  | String c s' =>
      if Ascii.eqb c "_"
      then if after_digit then digits acc false s' else None
      else match digit_of c with
           | Some d => digits (10 * acc + d) true s'
           | None => None
           end
  end.

(** [int(s)] on text, base 10; [None] stands for [ValueError]. *)
Definition int (s : string) : option Z :=
  match strip s with
  | String "+" r => digits 0 false r
  | String "-" r => Z.opp <$> digits 0 false r
  | t => digits 0 false t
  end.

(** [str(n)] for an integer. *)
Definition str (n : Z) : string := NilZero.string_of_int (Z.to_int n).


(** [os.path.isabs] (posixpath). *)
Definition isabs (p : string) : bool := String.prefix "/" p.

(** [str(output)] under Python 3, where [output] is a bytes object: the
    letter b and the bytes between quotes, with backslash, the quote, tab,
    line feed and carriage return written as backslash escapes and every
    other byte outside the printable range as [\xhh].  The quote is the single
    one unless the bytes hold a single quote and no double quote. *)
Definition hex_digit (n : nat) : ascii :=
  nth n (list_ascii_of_string "0123456789abcdef") "0"%char.

Fixpoint contains (c : ascii) (s : string) : bool :=
  match s with
  | EmptyString => false
  | String a s' => Ascii.eqb a c || contains c s'
  end.

Definition double_quote : ascii := ascii_of_nat 34.

Definition escape_byte (quote c : ascii) : string :=
  let n := nat_of_ascii c in
  if Ascii.eqb c quote || Ascii.eqb c "\"
  then String "\" (String c EmptyString)
  else if (n =? 9)%nat then "\t"
  else if (n =? 10)%nat then "\n"
  else if (n =? 13)%nat then "\r"
  else if ((n <? 32) || (127 <=? n))%nat
  then String "\" (String "x" (String (hex_digit (n / 16))
         (String (hex_digit (n mod 16)) EmptyString)))
  else String c EmptyString.

Fixpoint escape (quote : ascii) (s : string) : string :=
  match s with
  | EmptyString => EmptyString
  | String c s' => escape_byte quote c ++ escape quote s'
  end.

Definition bytes_repr (raw : string) : string :=
  let quote := if contains "'" raw && negb (contains double_quote raw)
               then double_quote else "'"%char in
  String "b" (String quote (escape quote raw ++ String quote EmptyString)).

End Py.

(** ** The snapshot, the inventory and the world *)

(** A machine's record is a dictionary with at most the key [ssh_port]; the
    snapshot ([results] in the source) maps machine names to records. *)
Abbreviation MachineRecord := (gmap string Z).
Abbreviation Snapshot := (gmap string (gmap string Z)).

Inductive value : Type :=
  | VStr (s : string)
  | VInt (n : Z).

(** Modelled from the spec: the inventory of the host framework
    ([self.inventory]) is not part of this repository.  The spec describes it
    as a sink with the operations add group, add host and set variable, with
    idempotent add semantics: groups and hosts are sets, membership is a set
    of (group, host) pairs, and a variable of an entity holds the value set
    last. *)
Record Inventory : Type := {
  inv_groups : gset string;
  inv_hosts : gset string;
  inv_members : gset (string * string);
  inv_vars : gmap (string * string) value
}.

Definition empty_inventory : Inventory :=
  {| inv_groups := ∅; inv_hosts := ∅; inv_members := ∅; inv_vars := ∅ |}.

Module Inv.

(** Modelled from the spec: [inventory.add_group(group)], returns the name. *)
Definition add_group (group : string) (i : Inventory) : Inventory :=
  {| inv_groups := {[group]} ∪ inv_groups i;
     inv_hosts := inv_hosts i;
     inv_members := inv_members i;
     inv_vars := inv_vars i |}.

(** Modelled from the spec: [inventory.add_host(host, group)]. *)
Definition add_host (host group : string) (i : Inventory) : Inventory :=
  {| inv_groups := inv_groups i;
     inv_hosts := {[host]} ∪ inv_hosts i;
     inv_members := {[(group, host)]} ∪ inv_members i;
     inv_vars := inv_vars i |}.

(** Modelled from the spec: [inventory.set_variable(entity, varname, value)]. *)
Definition set_variable (entity varname : string) (v : value) (i : Inventory)
  : Inventory :=
  {| inv_groups := inv_groups i;
     inv_hosts := inv_hosts i;
     inv_members := inv_members i;
     inv_vars := <[(entity, varname) := v]> (inv_vars i) |}.

End Inv.

Record World : Type := {
  cwd : string;                       (* the process's working directory *)
  calls : list (list string);         (* subprocess invocations, oldest first *)
  printed : list string;              (* what [print] wrote *)
  cache_store : gmap string Snapshot;  (* [self._cache] *)
  inventory : Inventory               (* [self.inventory] *)
}.

Definition with_cwd (d : string) (w : World) : World :=
  {| cwd := d; calls := calls w; printed := printed w;
     cache_store := cache_store w; inventory := inventory w |}.
Definition with_call (c : list string) (w : World) : World :=
  {| cwd := cwd w; calls := calls w ++ [c]; printed := printed w;
     cache_store := cache_store w; inventory := inventory w |}.
Definition with_print (s : string) (w : World) : World :=
  {| cwd := cwd w; calls := calls w; printed := printed w ++ [s];
     cache_store := cache_store w; inventory := inventory w |}.
Definition with_cache (c : gmap string Snapshot)
  (w : World) : World :=
  {| cwd := cwd w; calls := calls w; printed := printed w;
     cache_store := c; inventory := inventory w |}.
Definition with_inventory (i : Inventory) (w : World) : World :=
  {| cwd := cwd w; calls := calls w; printed := printed w;
     cache_store := cache_store w; inventory := i |}.

(** ** Statements: state and exceptions *)

Inductive exn : Type :=
  | OSError
  | ValueError
  | KeyError
  | NameError (name : string)
  | UnboundLocalError (name : string).

Inductive outcome (A : Type) : Type :=
  | Ret (a : A)
  | Raise (e : exn).
Arguments Ret {A} a.
Arguments Raise {A} e.

#[global] Instance exn_eq_dec : EqDecision exn.
Proof. solve_decision. Defined.

Definition M (A : Type) : Type := World → World * outcome A.

Definition ret {A} (a : A) : M A := λ w, (w, Ret a).
Definition raise {A} (e : exn) : M A := λ w, (w, Raise e).
Definition bind {A B} (m : M A) (k : A → M B) : M B := λ w,
  match m w with
  | (w', Ret a) => k a w'
  | (w', Raise e) => (w', Raise e)
  end.
(** [try: m  except e: h] *)
Definition try_except {A} (m : M A) (e : exn) (h : M A) : M A := λ w,
  match m w with
  | (w', Raise e') => if decide (e' = e) then h w' else (w', Raise e')
  | r => r
  end.

Declare Scope py_scope.
Delimit Scope py_scope with py.
Notation "'do' x <- m ; k" := (bind m (λ x, k))
  (at level 10, x name, m at level 100, k at level 200,
   only parsing) : py_scope.
Local Open Scope py_scope.

(** [for x in xs: acc = body acc x], stopping at the first exception. *)
Fixpoint for_each {A S} (xs : list A) (body : S → A → M S) (acc : S) : M S :=
  match xs with
  | [] => ret acc
  | x :: rest => do acc' <- body acc x; for_each rest body acc'
  end.

Definition lift {A} (o : outcome A) : M A := λ w, (w, o).

(** ** The plugin *)

(** The options read from the configuration file ([self.get_option]):
    [cache] of the inventory-cache fragment, [project_path] and [ssh_port]. *)
Record Options : Type := {
  opt_cache : bool;
  opt_project_path : string;
  opt_ssh_port : Z
}.

(** The separator both parsers split [str(output)] on: the four characters
    backslash, r, backslash, n of the source's ['\\r\\n']. *)
Definition line_sep : string := "\r\n".

Definition lines_of (text : string) : list string := Py.split line_sep text.

(** Body of the loop of [get_machines]. *)
Definition machines_line (machines : list string) (line : string)
  : list string :=
  let parts := Py.split "," line in
  if (3 <=? length parts)%nat && String.eqb (Py.item parts 2) "state"
  then machines ++ [Py.item parts 1]
  else machines.

Definition machines_of (text : string) : list string :=
  fold_left machines_line (lines_of text) [].

(** The loop of [get_ssh_port]: it returns at the first line that passes the
    test, and [None] when the lines run out. *)
Fixpoint ssh_port_lines (guest_port : Z) (lines : list string)
  : outcome (option Z) :=
  match lines with
  | [] => Ret None
  | line :: rest =>
      let parts := Py.split "," line in
      if (5 <=? length parts)%nat
         && String.eqb (Py.item parts 2) "forwarded_port"
         && String.eqb (Py.item parts 3) (Py.str guest_port)
      then match Py.int (Py.item parts 4) with
           | Some port => Ret (Some port)
           | None => Raise ValueError
           end
      else ssh_port_lines guest_port rest
  end.

Definition ssh_port_of (text : string) (guest_port : Z) : outcome (option Z) :=
  ssh_port_lines guest_port (lines_of text).


(** Truth value of an integer in [if ssh_port:]. *)
Definition truthy (n : Z) : bool := negb (n =? 0).

(** Body of the loop of [populate]; the three arguments are the group names
    [add_group] returned. *)
Definition populate_machine
  (vagrant_group_name running_group_name not_running_group_name : string)
  (inv : Inventory) (entry : string * MachineRecord) : Inventory :=
  let machine_name := entry.1 in
  let machine := entry.2 in
  let inv := Inv.add_host machine_name vagrant_group_name inv in
  match machine !! "ssh_port" with
  | Some port =>
      let inv := Inv.add_host machine_name running_group_name inv in
      Inv.set_variable machine_name "ansible_port" (VInt port) inv
  | None => Inv.add_host machine_name not_running_group_name inv
  end.

(** [populate(self, results)], as a change of [self.inventory]. *)
Definition populate (results : Snapshot) (inv : Inventory)
  : Inventory :=
  let vagrant_group := "vagrant_machines" in
  let inv := Inv.add_group vagrant_group inv in
  let vagrant_group_name := vagrant_group in
  let inv := Inv.set_variable vagrant_group_name "ansible_host"
               (VStr "127.0.0.1") inv in
  let inv := Inv.set_variable vagrant_group_name "ansible_user"
               (VStr "vagrant") inv in
  let not_running_group := "not_running" in
  let inv := Inv.add_group not_running_group inv in
  let running_group := "running" in
  let inv := Inv.add_group running_group inv in
  fold_left (populate_machine vagrant_group_name running_group not_running_group)
    (map_to_list results) inv.

Section Plugin.

(** What the plugin finds outside: [vagrant dir earlier command] is the text
    [str(output)] of running [command] in directory [dir] after the calls
    [earlier], or [None] when the process cannot be started; [is_dir] tells
    which directories [os.chdir] can enter; [get_cache_key] is the
    framework's. *)
Variable vagrant : string → list (list string) → list string → option string.
Variable is_dir : string → bool.
Variable get_cache_key : string → string.

(** [subprocess.Popen(command, stdout=subprocess.PIPE)] followed by
    [communicate()] and [str(output)].  Standard error is not piped, so
    [error] is [None] and nothing is printed. *)
Definition popen_communicate (command : list string) : M string := λ w,
  match vagrant (cwd w) (calls w) command with
  | Some text => (with_call command w, Ret text)
  | None => (with_call command w, Raise OSError)
  end.

Definition chdir (d : string) : M unit := λ w,
  if is_dir d then (with_cwd d w, Ret tt) else (w, Raise OSError).

Definition print (s : string) : M unit := λ w, (with_print s w, Ret tt).

(** Modelled from the spec: the cache store is a key-value store with get
    and set; [self._cache[key]] raises [KeyError] when there is no entry. *)
Definition cache_get (key : string) : M (Snapshot) := λ w,
  match cache_store w !! key with
  | Some results => (w, Ret results)
  | None => (w, Raise KeyError)
  end.

(** Modelled from the spec: [self._cache[key] = results]. *)
Definition cache_set (key : string) (results : Snapshot)
  : M unit := λ w,
  (with_cache (<[key := results]> (cache_store w)) w, Ret tt).

Definition on_inventory (f : Inventory → Inventory) : M unit := λ w,
  (with_inventory (f (inventory w)) w, Ret tt).

Definition get_machines : M (list string) :=
  do text <- popen_communicate ["vagrant"; "status"; "--machine-readable"];
  ret (machines_of text).

Definition get_ssh_port (machine : string) (guest_port : Z) : M (option Z) :=
  do text <- popen_communicate ["vagrant"; "port"; machine; "--machine-readable"];
  lift (ssh_port_of text guest_port).

(** Body of the loop of [fetch]. *)
Definition fetch_machine (guest_ssh_port : Z)
  (results : Snapshot) (machine : string)
  : M (Snapshot) :=
  let results := <[machine := ∅]> results in
  do ssh_port <- get_ssh_port machine guest_ssh_port;
  match ssh_port with
  | Some port =>
      if truthy port
      then ret (alter (insert "ssh_port" port) machine results)
      else ret results
  | None => ret results
  end.

(** [fetch(self)].  The name [path] is bound neither in [fetch] nor in the
    module, so evaluating the [else] branch raises [NameError]. *)
Definition fetch (opts : Options) : M (Snapshot) :=
  let project_path_in := opt_project_path opts in
  let guest_ssh_port := opt_ssh_port opts in
  do project_path <- (if Py.isabs project_path_in
                      then ret project_path_in
                      else raise (NameError "path"));
  do _ <- chdir project_path;
  do machines <- get_machines;
  for_each machines (fetch_machine guest_ssh_port) ∅.

(** [parse(self, inventory, loader, path, cache)] once the framework has
    read the configuration and loaded the cache plugin.  [results] is a local
    variable that no statement may have bound when [populate] is called. *)
Definition parse (opts : Options) (path : string) (cache : bool) : M unit :=
  let cache_key := get_cache_key path in
  let user_cache_setting := opt_cache opts in
  let attempt_to_read_cache := user_cache_setting && cache in
  let cache_needs_update := user_cache_setting && negb cache in
  do st <- (if attempt_to_read_cache
            then try_except
                   (do results <- cache_get cache_key;
                    ret (Some results, cache_needs_update))
                   KeyError
                   (do _ <- print "failed to find in cache";
                    ret (None, true))
            else ret (None, cache_needs_update));
  let results := st.1 in
  let cache_needs_update := st.2 in
  do results <- (if cache_needs_update
                 then do results <- fetch opts;
                      do _ <- cache_set cache_key results;
                      ret (Some results)
                 else ret results);
  match results with
  | Some results => on_inventory (populate results)
  | None => raise (UnboundLocalError "results")
  end.

End Plugin.

(** ** Notions used in the statements *)

(** The comma-separated fields of a line, and its [n]-th field counted from
    one as the spec counts them. *)
Definition fields (line : string) : list string := Py.split "," line.
Definition field (n : nat) (line : string) : string :=
  Py.item (fields line) (n - 1).

(** A guest-state line: at least 3 fields, the 3rd being [state]. *)
Definition state_line (line : string) : bool :=
  (3 <=? length (fields line))%nat && String.eqb (field 3 line) "state".

(** A line feed, a carriage return, and the two as a line end. *)
Definition lf : string := String (ascii_of_nat 10) EmptyString.
Definition cr : string := String (ascii_of_nat 13) EmptyString.
Definition crlf : string := cr ++ lf.

(** A line without the carriage return it may end with. *)
Fixpoint drop_cr (s : string) : string :=
  match s with
  | EmptyString => EmptyString
  | String c s' =>
      match s' with
      | EmptyString =>
          if Ascii.eqb c (ascii_of_nat 13) then EmptyString else s
      | String _ _ => String c (drop_cr s')
      end
  end.

(** The lines of an output of the tool, at its line boundaries: the output
    is cut at every line feed, and a carriage return before the line feed
    belongs to the line end.  What follows the last line feed is a last,
    possibly empty, line. *)
Definition output_lines (output : string) : list string :=
  map drop_cr (Py.split lf output).

(** The guests of a discovery output, in the spec's words: the 2nd field of
    each guest-state line of the output, in line order. *)
Definition list_guests_spec (output : string) : list string :=
  map (field 2) (List.filter state_line (output_lines output)).

(** A forwarded-port line for [internal_port], as the source tests it: the
    4th field is the text [str(internal_port)]. *)
Definition port_line (internal_port : Z) (line : string) : bool :=
  (5 <=? length (fields line))%nat
  && String.eqb (field 3 line) "forwarded_port"
  && String.eqb (field 4 line) (Py.str internal_port).

(** The same in the spec's words: the 4th field, parsed as an integer, equals
    [internal_port]. *)
Definition port_line_numeric (internal_port : Z) (line : string) : bool :=
  (5 <=? length (fields line))%nat
  && String.eqb (field 3 line) "forwarded_port"
  && bool_decide (Py.int (field 4 line) = Some internal_port).

(** [resolve_port] in the spec's words: the 5th field, as an integer, of the
    first line of the output whose 4th field numerically equals the port. *)
Definition resolve_port_spec (output : string) (internal_port : Z)
  : option Z :=
  match List.find (port_line_numeric internal_port) (output_lines output) with
  | Some line => Py.int (field 5 line)
  | None => None
  end.

(** A character that [Py.bytes_repr] writes as it is and that is no quote:
    printable ASCII other than backslash and single quote. *)
Definition plain_char (c : ascii) : bool :=
  let n := nat_of_ascii c in
  ((32 <=? n) && (n <? 127))%nat
  && negb (Ascii.eqb c "\") && negb (Ascii.eqb c "'").

Fixpoint plain (s : string) : bool :=
  match s with
  | EmptyString => true
  | String c s' => plain_char c && plain s'
  end.

(** The output of a process that prints the lines [ls], each one ended by
    carriage return and line feed. *)
Fixpoint crlf_lines (ls : list string) : string :=
  match ls with
  | [] => EmptyString
  | l :: rest => l ++ crlf ++ crlf_lines rest
  end.

Definition no_backslash (s : string) : bool := negb (Py.contains "\" s).

Definition status_command : list string :=
  ["vagrant"; "status"; "--machine-readable"].
Definition port_command (machine : string) : list string :=
  ["vagrant"; "port"; machine; "--machine-readable"].

(** Every one of the calls [new], made in directory [dir] after the calls
    [earlier], started a process. *)
Fixpoint all_started
  (vagrant : string → list (list string) → list string → option string)
  (dir : string) (earlier new : list (list string)) : bool :=
  match new with
  | [] => true
  | c :: rest =>
      match vagrant dir earlier c with
      | Some _ => all_started vagrant dir (earlier ++ [c]) rest
      | None => false
      end
  end.

(** Pointwise union of two inventories; the variables of the left one win. *)
Definition inv_union (a b : Inventory) : Inventory :=
  {| inv_groups := inv_groups a ∪ inv_groups b;
     inv_hosts := inv_hosts a ∪ inv_hosts b;
     inv_members := inv_members a ∪ inv_members b;
     inv_vars := inv_vars a ∪ inv_vars b |}.

(** The groups the loop of [populate] puts a machine in: [vg] always, [rg]
    when its record has [ssh_port], [ng] when it has not. *)
Definition joins (vg rg ng grp : string) (machine : MachineRecord) : Prop :=
  grp = vg
  ∨ (grp = rg ∧ is_Some (machine !! "ssh_port"))
  ∨ (grp = ng ∧ machine !! "ssh_port" = None).

(** The world in which a fresh fetch starts: when the cache was consulted,
    the miss has been printed. *)
Definition before_fetch (cache : bool) (w : World) : World :=
  if cache then with_print "failed to find in cache" w else w.

(** ** Sample inputs *)

Definition sample_world : World :=
  {| cwd := "/"; calls := []; printed := []; cache_store := ∅;
     inventory := empty_inventory |}.

Definition sample_options : Options :=
  {| opt_cache := true; opt_project_path := "/home/example/vagrant/";
     opt_ssh_port := 22 |}.

(** A [vagrant] that answers every status command with [status_text] and
    every port command with [port_text]. *)
Definition sample_vagrant (status_text port_text : string)
  : string → list (list string) → list string → option string :=
  λ _ _ command,
    match command with
    | ["vagrant"; "status"; _] => Some status_text
    | ["vagrant"; "port"; _; _] => Some port_text
    | _ => None
    end.

Definition every_dir : string → bool := λ _, true.
Definition path_key : string → string := λ path, path.

Definition status_two : string :=
  "1,default,state,running\r\n1,db,state,poweroff\r\n".
Definition status_one : string := "1,default,state,running\r\n".
Definition port_2222 : string := "1,default,forwarded_port,22,2222\r\n".
Definition port_not_a_number : string :=
  "1,default,forwarded_port,22,abc\r\n".
Definition port_zero : string := "1,default,forwarded_port,22,0\r\n".

(** Outputs of the tool, byte for byte: two guest-state lines ended by line
    feeds, the same ended by carriage return and line feed, and port lines
    ended by carriage return and line feed. *)
Definition status_lf : string :=
  "1,default,state,running" ++ lf ++ "1,db,state,poweroff" ++ lf.
Definition status_crlf : string :=
  crlf_lines ["1,default,state,running"; "1,db,state,poweroff"].
Definition port_padded_crlf : string :=
  crlf_lines ["1,default,forwarded_port,022,2222"].
Definition port_two_crlf : string :=
  crlf_lines ["1,default,forwarded_port,80,8080";
              "1,default,forwarded_port,22,2222"].

Definition sample_machine : MachineRecord := {["ssh_port" := 2222]}.
Definition sample_results : Snapshot :=
  {["default" := sample_machine]}.

(** ** Checks on small inputs *)

Example split_ex1 : Py.split "," "a,b,,c," = ["a"; "b"; ""; "c"; ""].
Proof. reflexivity. Qed.
Example split_ex2 : Py.split "\r\n" "x,y\r\nz\r\n" = ["x,y"; "z"; ""].
Proof. reflexivity. Qed.
Example split_ex3 : Py.split "," "" = [""].
Proof. reflexivity. Qed.
Example int_ex1 : Py.int " 022 " = Some 22.
Proof. reflexivity. Qed.
Example int_ex2 : Py.int "-1_0" = Some (-10).
Proof. reflexivity. Qed.
Example int_ex3 : Py.int "2222\n'" = None.
Proof. reflexivity. Qed.
Example str_ex1 : Py.str 22 = "22" ∧ Py.str 0 = "0" ∧ Py.str (-5) = "-5".
Proof. repeat split; reflexivity. Qed.

(** ** The text primitives *)

Lemma split_from_nonempty sep skip s : Py.split_from sep skip s ≠ [].
Proof.
  revert skip. induction s as [|c s IH]; intros skip; cbn [Py.split_from]; [done|].
  destruct skip as [|k]; [|apply IH].
  destruct (String.prefix sep (String c s)); [done|].
  destruct (Py.split_from sep 0 s); done.
Qed.

Lemma split_from_skip sep u t :
  Py.split_from sep (String.length u) (u ++ t) = Py.split_from sep 0 t.
Proof. induction u as [|c u IH]; simpl; [done|apply IH]. Qed.

Lemma prefix_app p s : String.prefix p s = true → ∃ t, s = p ++ t.
Proof.
  revert s. induction p as [|a p IH]; intros s H; simpl in *.
  - by exists s.
  - destruct s as [|b s]; [done|]. simpl in H.
    destruct (ascii_dec a b) as [->|]; [|done].
    destruct (IH _ H) as [t ->]. by exists t.
Qed.

Lemma join_cons sep p ps :
  ps ≠ [] → Py.join sep (p :: ps) = p ++ sep ++ Py.join sep ps.
Proof. by destruct ps. Qed.

Lemma length_app_string (a b : string) :
  String.length (a ++ b) = (String.length a + String.length b)%nat.
Proof. induction a; simpl; [done|by f_equal]. Qed.

(** Joining the pieces with the separator gives the text back. *)
Lemma join_split sep s : sep ≠ "" → Py.join sep (Py.split sep s) = s.
Proof.
  intros Hsep. unfold Py.split.
  remember (String.length s) as n eqn:Hn.
  revert s Hn. induction (lt_wf n) as [n _ IH]. intros s Hn.
  destruct s as [|c s]; [done|]. cbn [Py.split_from].
  destruct (String.prefix sep (String c s)) eqn:Hp.
  - apply prefix_app in Hp as [t Ht].
    destruct sep as [|a sep]; [done|]. simpl in Ht. injection Ht as -> ->.
    replace (String.length (String a sep) - 1)%nat with (String.length sep)
      by (simpl; lia).
    rewrite split_from_skip.
    rewrite join_cons by apply split_from_nonempty.
    assert (Py.join (String a sep) (Py.split_from (String a sep) 0 t) = t)
      as ->; [|done].
    eapply IH; [|done]. subst n. simpl. rewrite length_app_string. lia.
  - pose proof (split_from_nonempty sep 0 s) as Hne.
    specialize (IH (String.length s)).
    destruct (Py.split_from sep 0 s) as [|p ps] eqn:E; [done|].
    assert (Py.join sep (p :: ps) = s) as Hj.
    { rewrite <- E. eapply IH; [subst n; simpl; lia|done]. }
    destruct ps as [|q ps]; cbn [Py.join] in *; subst s; reflexivity.
Qed.

(** ** The two parsers *)

Lemma machines_line_spec machines line :
  machines_line machines line =
  (machines ++ (if state_line line then [field 2 line] else []))%list.
Proof.
  unfold machines_line, state_line, field, fields. simpl.
  destruct (_ && _); [done|by rewrite app_nil_r].
Qed.

Lemma fold_machines_line lines machines :
  fold_left machines_line lines machines =
  (machines ++ map (field 2) (List.filter state_line lines))%list.
Proof.
  revert machines. induction lines as [|line lines IH]; intros machines; simpl.
  - by rewrite app_nil_r.
  - rewrite IH, machines_line_spec.
    destruct (state_line line); simpl; by rewrite <- app_assoc.
Qed.

(** What the loop of [get_machines] collects, over the pieces the source
    cuts the text into. *)
Lemma machines_of_pieces text :
  machines_of text = map (field 2) (List.filter state_line (lines_of text)).
Proof. unfold machines_of. by rewrite fold_machines_line. Qed.

Lemma ssh_port_lines_find guest_port lines :
  ssh_port_lines guest_port lines =
  match List.find (port_line guest_port) lines with
  | Some line =>
      match Py.int (field 5 line) with
      | Some port => Ret (Some port)
      | None => Raise ValueError
      end
  | None => Ret None
  end.
Proof.
  induction lines as [|line lines IH]; [done|].
  cbn [ssh_port_lines List.find]. rewrite IH.
  unfold port_line, field, fields. simpl. by destruct (_ && _ && _).
Qed.

Section Calls.

Variable vagrant : string → list (list string) → list string → option string.

Lemma popen_started command text w :
  vagrant (cwd w) (calls w) command = Some text →
  popen_communicate vagrant command w = (with_call command w, Ret text).
Proof. unfold popen_communicate. by intros ->. Qed.

Lemma popen_failed command w :
  vagrant (cwd w) (calls w) command = None →
  popen_communicate vagrant command w = (with_call command w, Raise OSError).
Proof. unfold popen_communicate. by intros ->. Qed.

Lemma get_machines_started text w :
  vagrant (cwd w) (calls w) status_command = Some text →
  get_machines vagrant w = (with_call status_command w, Ret (machines_of text)).
Proof.
  intros H. apply popen_started in H. unfold status_command in H.
  unfold get_machines, bind. by rewrite H.
Qed.

Lemma get_ssh_port_started machine guest_port text w :
  vagrant (cwd w) (calls w) (port_command machine) = Some text →
  get_ssh_port vagrant machine guest_port w =
  (with_call (port_command machine) w, ssh_port_of text guest_port).
Proof.
  intros H. apply popen_started in H. unfold port_command in H.
  unfold get_ssh_port, bind. by rewrite H.
Qed.

(** [get_machines] over the pieces of the text: the 2nd field of every
    piece between occurrences of [line_sep] that has at least 3 fields with
    3rd field [state], in order and with repetitions kept. *)
Lemma get_machines_pieces (w : World) (text : string) :
  vagrant (cwd w) (calls w) status_command = Some text →
  get_machines vagrant w =
  (with_call status_command w,
   Ret (map (field 2) (List.filter state_line (lines_of text)))).
Proof.
  intros Hrun. by rewrite (get_machines_started _ _ Hrun), machines_of_pieces.
Qed.

(** [get_ssh_port] over the pieces of the text: the outcome is decided by
    the first piece between occurrences of [line_sep] that passes the
    source's test. *)
Lemma get_ssh_port_pieces (w : World) (machine text : string)
    (guest_port : Z) :
  vagrant (cwd w) (calls w) (port_command machine) = Some text →
  get_ssh_port vagrant machine guest_port w =
  (with_call (port_command machine) w,
   match List.find (port_line guest_port) (lines_of text) with
   | Some line =>
       match Py.int (field 5 line) with
       | Some port => Ret (Some port)
       | None => Raise ValueError
       end
   | None => Ret None
   end).
Proof.
  intros Hrun. rewrite (get_ssh_port_started _ _ _ _ Hrun).
  unfold ssh_port_of. by rewrite ssh_port_lines_find.
Qed.

(** C10: when the port command gives a text whose first line with at least 5
    fields, field 3 [forwarded_port] and field 4 equal to the text of the
    requested port has a 5th field that [int] rejects, [get_ssh_port] raises
    [ValueError]; it does not return [None]. *)
Theorem get_ssh_port_bad_port_field (w : World) (machine text line : string)
    (guest_port : Z) :
  vagrant (cwd w) (calls w) (port_command machine) = Some text →
  List.find (port_line guest_port) (lines_of text) = Some line →
  Py.int (field 5 line) = None →
  get_ssh_port vagrant machine guest_port w =
  (with_call (port_command machine) w, Raise ValueError).
Proof.
  intros Hrun Hline Hint. rewrite (get_ssh_port_started _ _ _ _ Hrun).
  unfold ssh_port_of. by rewrite ssh_port_lines_find, Hline, Hint.
Qed.

End Calls.

(** ** Outputs with real line ends

    Under Python 3 [str(output)] is [Py.bytes_repr output], in which a
    carriage return and line feed read as the four characters of [line_sep]:
    there the pieces the source cuts are the lines of the output. *)

Lemma append_cons (x : ascii) (a b : string) :
  String x a ++ b = String x (a ++ b).
Proof. reflexivity. Qed.

Lemma append_nil (b : string) : "" ++ b = b.
Proof. reflexivity. Qed.

Lemma app_assoc_string (a b c : string) : (a ++ b) ++ c = a ++ (b ++ c).
Proof.
  induction a as [|x a IH]; [done|]. by rewrite !append_cons, IH.
Qed.

Lemma plain_char_escape c : plain_char c = true → Py.escape_byte "'" c = String c "".
Proof.
  unfold plain_char, Py.escape_byte. intros H.
  apply andb_prop in H as [H Hq]. apply andb_prop in H as [H Hb].
  apply andb_prop in H as [Hlo Hhi].
  apply negb_true_iff in Hq, Hb. rewrite Hq, Hb. cbn [orb].
  apply Nat.leb_le in Hlo. apply Nat.ltb_lt in Hhi.
  assert ((nat_of_ascii c =? 9)%nat = false) as -> by (apply Nat.eqb_neq; lia).
  assert ((nat_of_ascii c =? 10)%nat = false) as ->
    by (apply Nat.eqb_neq; lia).
  assert ((nat_of_ascii c =? 13)%nat = false) as ->
    by (apply Nat.eqb_neq; lia).
  assert ((nat_of_ascii c <? 32)%nat = false) as ->
    by (apply Nat.ltb_ge; lia).
  assert ((127 <=? nat_of_ascii c)%nat = false) as ->
    by (apply Nat.leb_gt; lia).
  done.
Qed.

Lemma plain_contains_quote l : plain l = true → Py.contains "'" l = false.
Proof.
  induction l as [|c l IH]; cbn [plain Py.contains]; [done|]. intros H.
  apply andb_prop in H as [Hc Hl]. rewrite (IH Hl).
  unfold plain_char in Hc. apply andb_prop in Hc as [_ Hq].
  apply negb_true_iff in Hq. by rewrite Hq.
Qed.

Lemma contains_app c a b :
  Py.contains c (a ++ b) = Py.contains c a || Py.contains c b.
Proof.
  induction a as [|x a IH]; [done|].
  rewrite append_cons. cbn [Py.contains]. by rewrite IH, orb_assoc.
Qed.

Lemma crlf_lines_no_quote ls :
  Forall (λ l, plain l = true) ls → Py.contains "'" (crlf_lines ls) = false.
Proof.
  induction 1 as [|l ls Hl _ IH]; cbn [crlf_lines]; [done|].
  by rewrite !contains_app, IH, (plain_contains_quote _ Hl).
Qed.

Lemma escape_app q a b : Py.escape q (a ++ b) = Py.escape q a ++ Py.escape q b.
Proof.
  induction a as [|x a IH]; [done|].
  rewrite append_cons. cbn [Py.escape]. by rewrite IH, app_assoc_string.
Qed.

Lemma escape_plain l : plain l = true → Py.escape "'" l = l.
Proof.
  induction l as [|c l IH]; cbn [plain Py.escape]; [done|]. intros H.
  apply andb_prop in H as [Hc Hl].
  by rewrite (plain_char_escape _ Hc), (IH Hl).
Qed.

Lemma escape_crlf_lines ls :
  Forall (λ l, plain l = true) ls →
  Py.escape "'" (crlf_lines ls) = Py.join line_sep (ls ++ [""]).
Proof.
  induction 1 as [|l ls Hl _ IH]; simpl Py.join; [done|].
  cbn [crlf_lines]. rewrite !escape_app, IH, (escape_plain _ Hl).
  change (Py.escape "'" crlf) with line_sep.
  destruct (ls ++ [""])%list eqn:E; [by destruct ls|done].
Qed.

Lemma plain_no_backslash l : plain l = true → no_backslash l = true.
Proof.
  unfold no_backslash. induction l as [|c l IH]; cbn [plain Py.contains];
    [done|].
  intros H. apply andb_prop in H as [Hc Hl].
  unfold plain_char in Hc. apply andb_prop in Hc as [Hc _].
  apply andb_prop in Hc as [_ Hb]. apply negb_true_iff in Hb.
  rewrite Hb. by apply IH.
Qed.

Lemma split_no_backslash p :
  no_backslash p = true → Py.split line_sep p = [p].
Proof.
  unfold no_backslash, Py.split.
  induction p as [|c p IH]; cbn [Py.contains Py.split_from]; [done|].
  intros H. apply negb_true_iff, orb_false_elim in H as [Hc Hp].
  rewrite IH by by apply negb_true_iff.
  unfold line_sep. cbn [String.prefix].
  destruct (ascii_dec "\" c) as [<-|_]; [done|done].
Qed.

Lemma split_line_sep p t :
  no_backslash p = true →
  Py.split line_sep (p ++ line_sep ++ t) = p :: Py.split line_sep t.
Proof.
  unfold no_backslash, Py.split.
  induction p as [|c p IH]; intros H.
  - rewrite append_nil.
    assert (String.prefix line_sep (line_sep ++ t) = true) as Hp
      by by destruct t.
    change (line_sep ++ t) with (String "\" ("r\n" ++ t)) in *.
    cbn [Py.split_from]. rewrite Hp.
    change (String.length line_sep - 1)%nat with (String.length "r\n").
    by rewrite split_from_skip.
  - cbn [Py.contains] in H.
    apply negb_true_iff, orb_false_elim in H as [Hc Hp].
    rewrite append_cons. cbn [Py.split_from].
    rewrite IH by by apply negb_true_iff.
    unfold line_sep at 1. cbn [String.prefix].
    destruct (ascii_dec "\" c) as [<-|_]; [done|done].
Qed.

Lemma split_join_line_sep pieces :
  pieces ≠ [] → Forall (λ p, no_backslash p = true) pieces →
  Py.split line_sep (Py.join line_sep pieces) = pieces.
Proof.
  intros Hne Hall. induction Hall as [|p pieces Hp Hall IH]; [done|].
  destruct pieces as [|q pieces].
  - by apply split_no_backslash.
  - rewrite join_cons by done. rewrite split_line_sep by done.
    f_equal. by apply IH.
Qed.

Lemma no_backslash_app a b :
  no_backslash (a ++ b) = no_backslash a && no_backslash b.
Proof. unfold no_backslash. by rewrite contains_app, negb_orb. Qed.

Lemma join_head_app sep a p ps :
  a ++ Py.join sep (p :: ps) = Py.join sep ((a ++ p) :: ps).
Proof.
  destruct ps as [|q ps]; [done|].
  rewrite (join_cons sep p (q :: ps)), (join_cons sep (a ++ p) (q :: ps))
    by done.
  by rewrite app_assoc_string.
Qed.

Lemma join_last_app sep ps a b :
  Py.join sep (ps ++ [a]) ++ b = Py.join sep (ps ++ [a ++ b]).
Proof.
  induction ps as [|p ps IH]; [done|].
  rewrite <- !app_comm_cons.
  rewrite (join_cons sep p (ps ++ [a])), (join_cons sep p (ps ++ [a ++ b]))
    by (by destruct ps).
  by rewrite !app_assoc_string, IH.
Qed.

(** [str(output)] under Python 3 for an output of plain lines ended by
    CR LF: the lines joined by [line_sep], between [b'] and [']. *)
Lemma bytes_repr_crlf_lines ls :
  Forall (λ l, plain l = true) ls →
  Py.bytes_repr (crlf_lines ls) =
  Py.join line_sep
    match ls with
    | [] => ["b''"]
    | l :: rest => ("b'" ++ l) :: (rest ++ ["'"])%list
    end.
Proof.
  intros Hls. unfold Py.bytes_repr.
  rewrite (crlf_lines_no_quote _ Hls). cbn [andb].
  rewrite (escape_crlf_lines _ Hls).
  change (String "b" (String "'" ?s)) with ("b'" ++ s).
  rewrite (join_last_app line_sep ls "" "'"), append_nil.
  destruct ls as [|l rest]; [done|].
  rewrite <- app_comm_cons. apply join_head_app.
Qed.

Lemma lines_of_bytes_repr ls :
  Forall (λ l, plain l = true) ls →
  lines_of (Py.bytes_repr (crlf_lines ls)) =
  match ls with
  | [] => ["b''"]
  | l :: rest => ("b'" ++ l) :: (rest ++ ["'"])%list
  end.
Proof.
  intros Hls. unfold lines_of. rewrite (bytes_repr_crlf_lines _ Hls).
  apply split_join_line_sep; [by destruct ls|].
  destruct Hls as [|l rest Hl Hrest]; [by repeat constructor|].
  constructor.
  - rewrite no_backslash_app, (plain_no_backslash _ Hl). done.
  - apply Forall_app. split; [|by repeat constructor].
    eapply Forall_impl; [exact Hrest|]. apply plain_no_backslash.
Qed.

Lemma fields_cons c l :
  c ≠ ","%char →
  fields (String c l) =
  match fields l with
  | p :: ps => String c p :: ps
  | [] => [String c ""]
  end.
Proof.
  intros Hc. unfold fields, Py.split. cbn [Py.split_from String.prefix].
  by destruct (ascii_dec "," c) as [<-|_].
Qed.




Lemma forallb_plain ls :
  forallb plain ls = true → Forall (λ l, plain l = true) ls.
Proof.
  induction ls as [|l ls IH]; cbn [forallb]; [constructor|].
  intros H. apply andb_prop in H as [Hl Hls]. constructor; auto.
Qed.

Lemma find_snoc {A} (f : A → bool) xs y :
  f y = false → List.find f (xs ++ [y]) = List.find f xs.
Proof.
  intros Hy. induction xs as [|x xs IH]; cbn [app List.find].
  - by rewrite Hy.
  - by rewrite IH.
Qed.

Lemma field_cons c l n :
  c ≠ ","%char → (2 <= n)%nat → field n (String c l) = field n l.
Proof.
  intros Hc Hn. unfold field. rewrite (fields_cons _ _ Hc).
  pose proof (split_from_nonempty "," 0 l) as Hne.
  unfold fields, Py.split. destruct (Py.split_from "," 0 l); [done|].
  destruct n as [|[|n]]; [lia|lia|done].
Qed.

Lemma length_fields_cons c l :
  c ≠ ","%char → length (fields (String c l)) = length (fields l).
Proof.
  intros Hc. rewrite (fields_cons _ _ Hc).
  pose proof (split_from_nonempty "," 0 l) as Hne.
  unfold fields, Py.split. by destruct (Py.split_from "," 0 l).
Qed.

Lemma port_line_cons p c l :
  c ≠ ","%char → port_line p (String c l) = port_line p l.
Proof.
  intros Hc. unfold port_line.
  by rewrite (length_fields_cons _ _ Hc), !(field_cons _ _ _ Hc) by lia.
Qed.

(** Under Python 3 and for an output of plain lines ended by CR LF, the
    port is read from the first line of the output that passes the
    source's test. *)
Lemma ssh_port_of_python3_crlf ls guest_port :
  Forall (λ l, plain l = true) ls →
  ssh_port_of (Py.bytes_repr (crlf_lines ls)) guest_port =
  match List.find (port_line guest_port) ls with
  | Some line =>
      match Py.int (field 5 line) with
      | Some port => Ret (Some port)
      | None => Raise ValueError
      end
  | None => Ret None
  end.
Proof.
  intros Hls. unfold ssh_port_of.
  rewrite ssh_port_lines_find, (lines_of_bytes_repr _ Hls).
  destruct ls as [|l rest]; [done|].
  cbn [List.find].
  change ("b'" ++ l) with (String "b" (String "'" l)).
  rewrite !port_line_cons by done.
  destruct (port_line guest_port l).
  - by rewrite !field_cons by (done || lia).
  - by rewrite find_snoc.
Qed.

(** *** The lines of an output ended by CR LF *)

Lemma split_char_cons (d c : ascii) s :
  d ≠ c →
  Py.split (String d "") (String c s) =
  match Py.split (String d "") s with
  | p :: ps => String c p :: ps
  | [] => [String c ""]
  end.
Proof.
  intros Hc. unfold Py.split. cbn [Py.split_from String.prefix].
  by destruct (ascii_dec d c).
Qed.

Lemma split_char_sep (d : ascii) s :
  Py.split (String d "") (String d s) = "" :: Py.split (String d "") s.
Proof.
  unfold Py.split. cbn [Py.split_from String.prefix].
  destruct (ascii_dec d d); [|done]. by destruct s.
Qed.

Lemma plain_not_contains c l :
  (nat_of_ascii c < 32)%nat → plain l = true → Py.contains c l = false.
Proof.
  intros Hc. induction l as [|a l IH]; cbn [plain Py.contains]; [done|].
  intros H. apply andb_prop in H as [Ha Hl]. rewrite (IH Hl), orb_false_r.
  apply Ascii.eqb_neq. intros ->.
  unfold plain_char in Ha. apply andb_prop in Ha as [Ha _].
  apply andb_prop in Ha as [Ha _]. apply andb_prop in Ha as [Ha _].
  apply Nat.leb_le in Ha. lia.
Qed.

Lemma split_lf_line l rest :
  Py.contains (ascii_of_nat 10) l = false →
  Py.split lf (l ++ crlf ++ rest) = (l ++ cr) :: Py.split lf rest.
Proof.
  induction l as [|c l IH]; cbn [Py.contains]; intros H.
  - rewrite append_nil.
    change (crlf ++ rest)
      with (String (ascii_of_nat 13) (String (ascii_of_nat 10) rest)).
    unfold lf. rewrite split_char_cons by discriminate.
    by rewrite split_char_sep.
  - apply orb_false_elim in H as [Hc Hl]. apply Ascii.eqb_neq in Hc.
    rewrite !append_cons. unfold lf at 1.
    rewrite split_char_cons by congruence. fold lf. by rewrite IH.
Qed.

Lemma drop_cr_line l :
  Py.contains (ascii_of_nat 13) l = false → drop_cr (l ++ cr) = l.
Proof.
  induction l as [|c l IH]; cbn [Py.contains]; intros H; [done|].
  apply orb_false_elim in H as [Hc Hl].
  rewrite append_cons. cbn [drop_cr]. rewrite (IH Hl).
  destruct l; by rewrite ?append_cons.
Qed.

(** The lines of such an output are the lines printed, and an empty last
    line after the last line end. *)
Lemma output_lines_crlf ls :
  Forall (λ l, plain l = true) ls →
  output_lines (crlf_lines ls) = (ls ++ [""])%list.
Proof.
  unfold output_lines. induction 1 as [|l ls Hl _ IH]; [done|].
  cbn [crlf_lines].
  rewrite split_lf_line
    by (apply plain_not_contains; [vm_compute; lia|done]).
  cbn [map app]. rewrite IH.
  rewrite drop_cr_line
    by (apply plain_not_contains; [vm_compute; lia|done]).
  done.
Qed.

(** C2, amended: for an output of the port command made of plain lines
    (printable ASCII, no backslash, no single quote), each ended by CR LF,
    and read as Python 3 reads it, [get_ssh_port] returns the integer of field
    5 of the first line of the output that has at least 5 fields, whose
    field 3 is [forwarded_port] and whose field 4 is the text
    [str(guest_port)]; when no line of the output is such, it returns [None]
    and raises nothing. *)
Theorem get_ssh_port_crlf_output
    (vagrant : string → list (list string) → list string → option string)
    (w : World) (machine : string) (ls : list string) (guest_port : Z) :
  forallb plain ls = true →
  vagrant (cwd w) (calls w) (port_command machine) =
    Some (Py.bytes_repr (crlf_lines ls)) →
  (∀ line port,
     List.find (port_line guest_port) (output_lines (crlf_lines ls)) =
       Some line →
     Py.int (field 5 line) = Some port →
     get_ssh_port vagrant machine guest_port w =
     (with_call (port_command machine) w, Ret (Some port)))
  ∧ (List.find (port_line guest_port) (output_lines (crlf_lines ls)) = None →
     get_ssh_port vagrant machine guest_port w =
     (with_call (port_command machine) w, Ret None)).
Proof.
  intros Hls Hrun. apply forallb_plain in Hls.
  rewrite (get_ssh_port_started _ _ _ _ _ Hrun).
  rewrite (ssh_port_of_python3_crlf _ _ Hls), (output_lines_crlf _ Hls).
  rewrite find_snoc by done.
  split; [intros line port -> ->|intros ->]; done.
Qed.


(** ** Populating the inventory *)

Lemma inv_eq (a b : Inventory) :
  inv_groups a = inv_groups b → inv_hosts a = inv_hosts b →
  inv_members a = inv_members b → inv_vars a = inv_vars b → a = b.
Proof. destruct a, b; simpl; congruence. Qed.

Lemma inv_union_assoc a b c :
  inv_union a (inv_union b c) = inv_union (inv_union a b) c.
Proof.
  apply inv_eq; simpl; try apply (assoc_L (∪)).
Qed.

Lemma inv_union_idemp a : inv_union a a = a.
Proof.
  apply inv_eq; simpl; try apply (idemp_L (∪)).
Qed.

Lemma inv_union_empty a : inv_union empty_inventory a = a.
Proof.
  apply inv_eq; simpl; try apply (left_id_L ∅ (∪)).
Qed.

Lemma add_group_union g a b :
  Inv.add_group g (inv_union a b) = inv_union (Inv.add_group g a) b.
Proof. apply inv_eq; simpl; try done. apply (assoc_L (∪)). Qed.

Lemma add_host_union h g a b :
  Inv.add_host h g (inv_union a b) = inv_union (Inv.add_host h g a) b.
Proof. apply inv_eq; simpl; try done; apply (assoc_L (∪)). Qed.

Lemma set_variable_union e k v a b :
  Inv.set_variable e k v (inv_union a b) =
  inv_union (Inv.set_variable e k v a) b.
Proof.
  apply inv_eq; simpl; try done.
  by rewrite !insert_union_singleton_l, (assoc_L (∪)).
Qed.

Lemma populate_machine_union vg rg ng a b entry :
  populate_machine vg rg ng (inv_union a b) entry =
  inv_union (populate_machine vg rg ng a entry) b.
Proof.
  unfold populate_machine. destruct (entry.2 !! "ssh_port").
  - by rewrite !add_host_union, set_variable_union.
  - by rewrite !add_host_union.
Qed.

Lemma fold_populate_machine_union vg rg ng entries a b :
  fold_left (populate_machine vg rg ng) entries (inv_union a b) =
  inv_union (fold_left (populate_machine vg rg ng) entries a) b.
Proof.
  revert a. induction entries as [|entry entries IH]; intros a; [done|].
  simpl. by rewrite populate_machine_union, IH.
Qed.

(** What [populate] does to an inventory is a union with what it does to the
    empty one. *)
Lemma populate_union results inv :
  populate results inv = inv_union (populate results empty_inventory) inv.
Proof.
  unfold populate.
  rewrite <- (inv_union_empty inv) at 1.
  by rewrite !add_group_union, !set_variable_union, !add_group_union,
    fold_populate_machine_union.
Qed.

Lemma populate_twice results inv :
  populate results (populate results inv) = populate results inv.
Proof.
  rewrite (populate_union results (populate results inv)).
  rewrite (populate_union results inv).
  by rewrite inv_union_assoc, inv_union_idemp.
Qed.

(** C8: populating a fresh inventory twice from the same snapshot gives the
    same groups, hosts, memberships and variables as populating it once. *)
Theorem populate_idempotent (results : Snapshot) :
  populate results (populate results empty_inventory) =
  populate results empty_inventory.
Proof. apply populate_twice. Qed.

Section PopulateLoop.

Variables vg rg ng : string.

Lemma populate_machine_members inv entry grp h :
  (grp, h) ∈ inv_members (populate_machine vg rg ng inv entry) ↔
  (grp, h) ∈ inv_members inv ∨ (h = entry.1 ∧ joins vg rg ng grp entry.2).
Proof.
  unfold populate_machine, joins.
  destruct (entry.2 !! "ssh_port") eqn:E; simpl;
    rewrite ?elem_of_union, ?elem_of_singleton;
    (split;
     [intros H; decompose [or] H; clear H; simplify_eq; eauto 6
     |intros [?|[-> [->|[[-> H]|[-> H]]]]]; eauto;
      try discriminate H; by destruct H]).
Qed.

Lemma fold_populate_members entries inv grp h :
  (grp, h) ∈ inv_members (fold_left (populate_machine vg rg ng) entries inv) ↔
  (grp, h) ∈ inv_members inv
  ∨ ∃ machine, (h, machine) ∈ entries ∧ joins vg rg ng grp machine.
Proof.
  revert inv. induction entries as [|entry entries IH]; intros inv; simpl.
  - split; [auto|]. intros [?|(machine & Hin & _)]; [done|].
    by apply elem_of_nil in Hin.
  - rewrite IH, populate_machine_members. split.
    + intros [[?|[-> Hj]]|(machine & Hin & Hj)]; [by left| |].
      * right. exists entry.2. split; [|done].
        destruct entry; apply elem_of_cons; by left.
      * right. exists machine. split; [|done]. apply elem_of_cons; by right.
    + intros [?|(machine & Hin & Hj)]; [by left; left|].
      apply elem_of_cons in Hin as [<-|Hin]; [by left; right|].
      right. by exists machine.
Qed.

Lemma fold_populate_hosts entries inv h :
  h ∈ inv_hosts (fold_left (populate_machine vg rg ng) entries inv) ↔
  h ∈ inv_hosts inv ∨ h ∈ entries.*1.
Proof.
  revert inv. induction entries as [|entry entries IH]; intros inv; simpl.
  - rewrite elem_of_nil. tauto.
  - rewrite IH, elem_of_cons. unfold populate_machine.
    destruct (entry.2 !! "ssh_port"); simpl;
      rewrite ?elem_of_union, ?elem_of_singleton; tauto.
Qed.

Lemma fold_populate_vars_other entries inv h k :
  h ∉ entries.*1 →
  inv_vars (fold_left (populate_machine vg rg ng) entries inv) !! (h, k) =
  inv_vars inv !! (h, k).
Proof.
  revert inv. induction entries as [|entry entries IH]; intros inv Hh; [done|].
  simpl in *. apply not_elem_of_cons in Hh as [Hne Hh].
  rewrite IH by done. unfold populate_machine.
  destruct (entry.2 !! "ssh_port"); simpl; [|done].
  apply lookup_insert_ne. congruence.
Qed.

Lemma fold_populate_port entries inv h machine port :
  NoDup entries.*1 → (h, machine) ∈ entries →
  machine !! "ssh_port" = Some port →
  inv_vars (fold_left (populate_machine vg rg ng) entries inv)
    !! (h, "ansible_port") = Some (VInt port).
Proof.
  revert inv. induction entries as [|entry entries IH]; intros inv Hnd Hin Hp.
  - by apply elem_of_nil in Hin.
  - simpl in *. apply NoDup_cons in Hnd as [Hfresh Hnd].
    apply elem_of_cons in Hin as [<-|Hin].
    + rewrite fold_populate_vars_other by done.
      unfold populate_machine. simpl. rewrite Hp. simpl.
      apply lookup_insert_eq.
    + by apply IH.
Qed.

End PopulateLoop.

Section Order.

Variables vg rg ng : string.



End Order.

Lemma populate_members results inv grp h :
  (grp, h) ∈ inv_members (populate results inv) ↔
  (grp, h) ∈ inv_members inv
  ∨ ∃ machine, results !! h = Some machine
      ∧ joins "vagrant_machines" "running" "not_running" grp machine.
Proof.
  unfold populate. rewrite fold_populate_members. simpl.
  by setoid_rewrite elem_of_map_to_list.
Qed.

Lemma populate_hosts results inv h :
  h ∈ inv_hosts (populate results inv) ↔
  h ∈ inv_hosts inv ∨ is_Some (results !! h).
Proof.
  unfold populate. rewrite fold_populate_hosts. simpl.
  by rewrite <- elem_of_dom, dom_alt, elem_of_list_to_set.
Qed.

Lemma populate_port results inv h machine port :
  results !! h = Some machine → machine !! "ssh_port" = Some port →
  inv_vars (populate results inv) !! (h, "ansible_port") = Some (VInt port).
Proof.
  intros Hm Hp. unfold populate.
  eapply fold_populate_port; [apply NoDup_fst_map_to_list| |done].
  by apply elem_of_map_to_list.
Qed.

(** C7: [populate] adds every guest of the snapshot as a host of
    [vagrant_machines] and of exactly one of [running] and [not_running]:
    a guest whose record has [ssh_port] joins [running] and gets
    [ansible_port] set to the recorded port, any other guest joins
    [not_running]; [populate] puts it in the other group in neither case
    (it is a member of the other group afterwards only if it was before). *)
Theorem populate_guest_groups (results : Snapshot)
    (inv : Inventory) (machine_name : string) (machine : MachineRecord) :
  results !! machine_name = Some machine →
  let inv' := populate results inv in
  machine_name ∈ inv_hosts inv'
  ∧ ("vagrant_machines", machine_name) ∈ inv_members inv'
  ∧ match machine !! "ssh_port" with
    | Some port =>
        ("running", machine_name) ∈ inv_members inv'
        ∧ inv_vars inv' !! (machine_name, "ansible_port") = Some (VInt port)
        ∧ (("not_running", machine_name) ∈ inv_members inv' →
           ("not_running", machine_name) ∈ inv_members inv)
    | None =>
        ("not_running", machine_name) ∈ inv_members inv'
        ∧ (("running", machine_name) ∈ inv_members inv' →
           ("running", machine_name) ∈ inv_members inv)
    end.
Proof.
  intros Hm inv'. subst inv'.
  split; [apply populate_hosts; eauto|].
  split; [apply populate_members; right; exists machine; split; [done|by left]|].
  destruct (machine !! "ssh_port") as [port|] eqn:Hp.
  - split; [|split].
    + apply populate_members. right. exists machine. split; [done|].
      right; left. eauto.
    + by eapply populate_port.
    + rewrite populate_members. intros [?|(m' & Hm' & Hj)]; [done|].
      rewrite Hm in Hm'. injection Hm' as <-.
      destruct Hj as [?|[[? ?]|[_ Hn]]]; [done|done|congruence].
  - split.
    + apply populate_members. right. exists machine. split; [done|].
      right; right. eauto.
    + rewrite populate_members. intros [?|(m' & Hm' & Hj)]; [done|].
      rewrite Hm in Hm'. injection Hm' as <-.
      destruct Hj as [?|[[_ [? ?]]|[? _]]]; [done|congruence|done].
Qed.

(** ** Fetching *)

Section Fetch.

Variable vagrant : string → list (list string) → list string → option string.
Variable is_dir : string → bool.

(** One turn of the loop of [fetch] makes one call and touches nothing else
    of the world; when it returns, the call started a process and the
    machine has a record. *)
Lemma fetch_machine_step guest_ssh_port results machine w :
  ∃ o, fetch_machine vagrant guest_ssh_port results machine w =
       (with_call (port_command machine) w, o)
    ∧ ∀ results', o = Ret results' →
        is_Some (vagrant (cwd w) (calls w) (port_command machine))
        ∧ dom results' = {[machine]} ∪ dom results.
Proof.
  unfold fetch_machine, get_ssh_port, bind, popen_communicate, lift, ret.
  fold (port_command machine).
  destruct (vagrant _ _ _) as [text|]; [|eexists; split; [done|done]].
  destruct (ssh_port_of text guest_ssh_port) as [[port|]|e].
  - destruct (truthy port); eexists; (split; [done|]);
      intros ? [= <-]; (split; [eauto|]).
    + by rewrite dom_alter_L, dom_insert_L.
    + by rewrite dom_insert_L.
  - eexists; split; [done|]. intros ? [= <-]. split; [eauto|].
    by rewrite dom_insert_L.
  - eexists; split; [done|]. done.
Qed.

(** The record a turn of the loop leaves for the machine: [ssh_port] is set
    exactly when the port found is not zero. *)
Lemma fetch_machine_record guest_ssh_port results machine text w :
  vagrant (cwd w) (calls w) (port_command machine) = Some text →
  ∀ found, ssh_port_of text guest_ssh_port = Ret found →
  ∃ results',
    fetch_machine vagrant guest_ssh_port results machine w =
    (with_call (port_command machine) w, Ret results')
    ∧ results' !! machine =
      Some (match found with
            | Some port => if truthy port then {["ssh_port" := port]} else ∅
            | None => ∅
            end).
Proof.
  intros Hrun found Hfound.
  unfold fetch_machine, get_ssh_port, bind, popen_communicate, lift, ret.
  fold (port_command machine). rewrite Hrun, Hfound.
  destruct found as [port|]; [destruct (truthy port)|]; eexists;
    (split; [done|]).
  - rewrite lookup_alter_eq, lookup_insert_eq. done.
  - by rewrite lookup_insert_eq.
  - by rewrite lookup_insert_eq.
Qed.

Lemma fetch_loop_world guest_ssh_port machines results w :
  let w1 := (for_each machines (fetch_machine vagrant guest_ssh_port)
               results w).1 in
  cwd w1 = cwd w ∧ printed w1 = printed w
  ∧ cache_store w1 = cache_store w ∧ inventory w1 = inventory w.
Proof.
  revert results w. induction machines as [|machine machines IH];
    intros results w; [done|].
  cbn [for_each]. unfold bind.
  destruct (fetch_machine_step guest_ssh_port results machine w)
    as (o & -> & _).
  destruct o as [results'|e]; [|done].
  apply (IH results' (with_call (port_command machine) w)).
Qed.

Lemma fetch_loop_returns guest_ssh_port machines results w w1 final :
  for_each machines (fetch_machine vagrant guest_ssh_port) results w =
    (w1, Ret final) →
  calls w1 = (calls w ++ map port_command machines)%list
  ∧ all_started vagrant (cwd w) (calls w) (map port_command machines) = true
  ∧ dom final = list_to_set machines ∪ dom results.
Proof.
  revert results w. induction machines as [|machine machines IH];
    intros results w; cbn [for_each].
  - intros [= <- <-]. simpl. rewrite app_nil_r.
    split; [done|]. split; [done|]. set_solver.
  - unfold bind.
    destruct (fetch_machine_step guest_ssh_port results machine w)
      as (o & -> & Ho).
    destruct o as [results'|e]; [|done].
    destruct (Ho _ eq_refl) as [[text Hrun] Hdom].
    intros Hrest. apply IH in Hrest as (Hcalls & Hstarted & Hfinal).
    simpl in *. rewrite Hrun. rewrite <- app_assoc in Hcalls.
    split; [done|]. split; [done|]. rewrite Hfinal, Hdom. set_solver.
Qed.

(** What [fetch] leaves alone, whatever its outcome. *)
Lemma fetch_world opts w :
  let w1 := (fetch vagrant is_dir opts w).1 in
  printed w1 = printed w ∧ cache_store w1 = cache_store w
  ∧ inventory w1 = inventory w.
Proof.
  unfold fetch, get_machines, bind, chdir, popen_communicate, ret, raise.
  destruct (Py.isabs _); [|done].
  destruct (is_dir _); [|done].
  destruct (vagrant _ _ _) as [text|]; [|done].
  match goal with
  | |- context [for_each ?ms ?f ?r ?w0] =>
      pose proof (fetch_loop_world (opt_ssh_port opts) ms r w0) as H;
      destruct (for_each ms f r w0) as [w1 [final|e]]
  end; simpl in *; tauto.
Qed.

(** A [fetch] that returns ran in [project_path], started every process it
    called, and gave a record to exactly the machines discovered. *)
Lemma fetch_returns opts w w1 results :
  fetch vagrant is_dir opts w = (w1, Ret results) →
  Py.isabs (opt_project_path opts) = true
  ∧ cwd w1 = opt_project_path opts
  ∧ ∃ text,
      vagrant (cwd w1) (calls w) status_command = Some text
      ∧ calls w1 =
        (calls w ++ status_command :: map port_command (machines_of text))%list
      ∧ all_started vagrant (cwd w1) (calls w)
          (status_command :: map port_command (machines_of text)) = true
      ∧ dom results = list_to_set (machines_of text).
Proof.
  unfold fetch, get_machines, bind, chdir, popen_communicate, ret, raise.
  destruct (Py.isabs _); [|done].
  destruct (is_dir _); [|done]. fold status_command.
  simpl cwd. simpl calls.
  destruct (vagrant _ _ status_command) as [text|] eqn:Hrun; [|done].
  intros Hloop.
  pose proof (fetch_loop_world (opt_ssh_port opts) (machines_of text) ∅
                (with_call status_command
                   (with_cwd (opt_project_path opts) w))) as Hw.
  rewrite Hloop in Hw. simpl in Hw. destruct Hw as (Hcwd & _).
  apply fetch_loop_returns in Hloop as (Hcalls & Hstarted & Hdom).
  simpl in Hcalls, Hstarted. rewrite Hcwd.
  split; [done|]. split; [done|]. exists text.
  split; [done|]. split; [by rewrite Hcalls, <- app_assoc|].
  split; [simpl; by rewrite Hrun|]. rewrite Hdom. set_solver.
Qed.


(** [fetch] with a relative [project_path] stops at the unbound name. *)
Lemma fetch_relative opts w :
  Py.isabs (opt_project_path opts) = false →
  fetch vagrant is_dir opts w = (w, Raise (NameError "path")).
Proof. intros H. unfold fetch, bind, raise. by rewrite H. Qed.


End Fetch.

(** ** Parsing an inventory source *)

Section Parse.

Variable vagrant : string → list (list string) → list string → option string.
Variable is_dir : string → bool.
Variable get_cache_key : string → string.

Lemma parse_cache_disabled opts path cache w :
  opt_cache opts = false →
  parse vagrant is_dir get_cache_key opts path cache w =
  (w, Raise (UnboundLocalError "results")).
Proof. intros H. unfold parse, bind, ret, raise. by rewrite H. Qed.

Lemma parse_cache_hit opts path w results :
  opt_cache opts = true →
  cache_store w !! get_cache_key path = Some results →
  parse vagrant is_dir get_cache_key opts path true w =
  (with_inventory (populate results (inventory w)) w, Ret tt).
Proof.
  intros Hopt Hhit.
  unfold parse, try_except, cache_get, bind, ret, on_inventory.
  rewrite Hopt. simpl. by rewrite Hhit.
Qed.

Lemma parse_fresh_fetch opts path cache w :
  opt_cache opts = true →
  cache = false ∨ cache_store w !! get_cache_key path = None →
  parse vagrant is_dir get_cache_key opts path cache w =
  match fetch vagrant is_dir opts (before_fetch cache w) with
  | (w1, Ret results) =>
      (with_inventory (populate results (inventory w1))
         (with_cache (<[get_cache_key path := results]> (cache_store w1)) w1),
       Ret tt)
  | (w1, Raise e) => (w1, Raise e)
  end.
Proof.
  intros Hopt Hfresh.
  unfold parse, try_except, cache_get, cache_set, print, bind, ret,
    on_inventory, before_fetch.
  rewrite Hopt.
  destruct cache; simpl.
  - destruct Hfresh as [?|Hmiss]; [done|]. rewrite Hmiss. simpl.
    by destruct (fetch _ _ _ _) as [w1 [results|e]].
  - by destruct (fetch _ _ _ _) as [w1 [results|e]].
Qed.

(** A refresh followed by a read: the second [parse] populates from the
    snapshot the first one fetched and stored, and calls no process. *)
Lemma parse_refresh_then_read opts path w w1 :
  opt_cache opts = true →
  parse vagrant is_dir get_cache_key opts path false w = (w1, Ret tt) →
  ∃ w' results,
    fetch vagrant is_dir opts w = (w', Ret results)
    ∧ cache_store w1 !! get_cache_key path = Some results
    ∧ inventory w1 = populate results (inventory w)
    ∧ parse vagrant is_dir get_cache_key opts path true w1 =
      (with_inventory (populate results (inventory w1)) w1, Ret tt).
Proof.
  intros Hopt Hparse.
  rewrite (parse_fresh_fetch _ _ _ _ Hopt (or_introl eq_refl))
    in Hparse.
  unfold before_fetch in Hparse.
  pose proof (fetch_world vagrant is_dir opts w) as (_ & _ & Hinv).
  destruct (fetch vagrant is_dir opts w) as [w' [results|e]]; [|done].
  injection Hparse as <-. simpl in Hinv. exists w', results.
  split; [done|].
  assert (cache_store
            (with_inventory (populate results (inventory w'))
               (with_cache (<[get_cache_key path:=results]> (cache_store w'))
                  w')) !! get_cache_key path = Some results) as Hhit
    by apply lookup_insert_eq.
  split; [done|]. split; [simpl; by rewrite Hinv|].
  by apply parse_cache_hit.
Qed.

(** C1, as the source behaves: with the user's caching option off, [parse]
    neither fetches nor populates; it raises [UnboundLocalError] for
    [results] and leaves the world as it was. *)
Theorem parse_cache_off_unbound (opts : Options) (path : string)
    (cache : bool) (w : World) :
  opt_cache opts = false →
  parse vagrant is_dir get_cache_key opts path cache w =
  (w, Raise (UnboundLocalError "results")).
Proof. apply parse_cache_disabled. Qed.

(** C4, as the source behaves: a fetch with a relative [project_path] raises
    [NameError] for [path] before any directory is entered or process
    started. *)
Theorem fetch_relative_path_name_error (opts : Options) (w : World) :
  Py.isabs (opt_project_path opts) = false →
  fetch vagrant is_dir opts w = (w, Raise (NameError "path")).
Proof. apply fetch_relative. Qed.

(** C6: with caching enabled, no refresh forced and an entry under the key,
    [parse] populates the inventory from the stored snapshot as it is; it
    changes nothing else of the world, so no process is called.  An entry
    written under the key is the one read back. *)
Theorem parse_reads_cache (opts : Options) (path : string) (w : World)
    (results : Snapshot) :
  opt_cache opts = true →
  (cache_store w !! get_cache_key path = Some results →
   parse vagrant is_dir get_cache_key opts path true w =
   (with_inventory (populate results (inventory w)) w, Ret tt)
   ∧ calls (parse vagrant is_dir get_cache_key opts path true w).1 = calls w)
  ∧ (let w' := (cache_set (get_cache_key path) results w).1 in
     cache_store w' !! get_cache_key path = Some results
     ∧ parse vagrant is_dir get_cache_key opts path true w' =
       (with_inventory (populate results (inventory w')) w', Ret tt)
     ∧ calls (parse vagrant is_dir get_cache_key opts path true w').1 =
       calls w).
Proof.
  intros Hopt. split.
  - intros Hhit. by rewrite (parse_cache_hit _ _ _ _ Hopt Hhit).
  - simpl.
    assert (cache_store (with_cache (<[get_cache_key path:=results]>
              (cache_store w)) w) !! get_cache_key path = Some results)
      as Hhit by apply lookup_insert_eq.
    split; [done|]. by rewrite (parse_cache_hit _ _ _ _ Hopt Hhit).
Qed.

(** C9: a [parse] that fetches afresh (caching enabled, and a refresh forced
    or no entry under the key) ends in one of two ways.  Either [fetch]
    returns a snapshot: every process it called had started, the snapshot
    has a record for every machine discovered and for no other, it is stored
    in the cache and the inventory is populated from it.  Or [fetch] raises:
    the exception reaches the caller of [parse] and the inventory is left as
    it was. *)
Theorem parse_fetch_all_or_nothing (opts : Options) (path : string)
    (cache : bool) (w : World) :
  opt_cache opts = true →
  cache = false ∨ cache_store w !! get_cache_key path = None →
  let w0 := before_fetch cache w in
  (∃ w1 results text,
     fetch vagrant is_dir opts w0 = (w1, Ret results)
     ∧ vagrant (cwd w1) (calls w0) status_command = Some text
     ∧ (∀ machine, machine ∈ machines_of text ↔ is_Some (results !! machine))
     ∧ calls w1 =
       (calls w0 ++ status_command :: map port_command (machines_of text))%list
     ∧ all_started vagrant (cwd w1) (calls w0)
         (status_command :: map port_command (machines_of text)) = true
     ∧ parse vagrant is_dir get_cache_key opts path cache w =
       (with_inventory (populate results (inventory w))
          (with_cache (<[get_cache_key path := results]> (cache_store w)) w1),
        Ret tt))
  ∨ (∃ w1 e,
       fetch vagrant is_dir opts w0 = (w1, Raise e)
       ∧ parse vagrant is_dir get_cache_key opts path cache w = (w1, Raise e)
       ∧ inventory w1 = inventory w).
Proof.
  intros Hopt Hfresh w0.
  rewrite (parse_fresh_fetch _ _ _ _ Hopt Hfresh). fold w0.
  pose proof (fetch_world vagrant is_dir opts w0) as (_ & Hcache & Hinv).
  assert (inventory w0 = inventory w ∧ cache_store w0 = cache_store w)
    as [Hinv0 Hcache0] by (unfold w0, before_fetch; by destruct cache).
  destruct (fetch vagrant is_dir opts w0) as [w1 [results|e]] eqn:Hfetch;
    simpl in Hcache, Hinv.
  - left. exists w1, results.
    apply fetch_returns in Hfetch as (_ & _ & text & Hrun & Hcalls & Hst & Hdom).
    exists text. split; [done|]. split; [done|].
    split; [|split; [done|split; [done|]]].
    + intros machine. by rewrite <- elem_of_dom, Hdom, elem_of_list_to_set.
    + by rewrite Hinv, Hcache, Hinv0, Hcache0.
  - right. exists w1, e. split; [done|]. split; [done|]. congruence.
Qed.

End Parse.

(** ** Further properties of the plugin *)




Section LoopFacts.

Variables vg rg ng : string.




End LoopFacts.



Section FurtherFetch.

Variable vagrant : string → list (list string) → list string → option string.
Variable is_dir : string → bool.
Variable get_cache_key : string → string.




End FurtherFetch.


(** ** The statements at sample inputs *)

Lemma get_ssh_port_crlf_output_witness :
  forallb plain ["1,default,forwarded_port,80,8080";
                 "1,default,forwarded_port,22,2222"] = true
  ∧ sample_vagrant "" (Py.bytes_repr port_two_crlf) (cwd sample_world)
      (calls sample_world) (port_command "default") =
    Some (Py.bytes_repr port_two_crlf)
  ∧ List.find (port_line 22) (output_lines port_two_crlf) =
    Some "1,default,forwarded_port,22,2222"
  ∧ get_ssh_port (sample_vagrant "" (Py.bytes_repr port_two_crlf)) "default"
      22 sample_world =
    (with_call (port_command "default") sample_world, Ret (Some 2222)).
Proof.
  split; [reflexivity|]. split; [reflexivity|]. split; [reflexivity|].
  apply (proj1 (get_ssh_port_crlf_output
                  (sample_vagrant "" (Py.bytes_repr port_two_crlf))
                  sample_world "default"
                  ["1,default,forwarded_port,80,8080";
                   "1,default,forwarded_port,22,2222"] 22 eq_refl eq_refl)
           "1,default,forwarded_port,22,2222" 2222); reflexivity.
Defined.

(** C2 as stated fails: the output [port_padded_crlf] has one line, ended by
    CR LF; the line has 5 fields, field 3 is [forwarded_port], field 4 is
    [022], which [int] reads as 22, and field 5 is 2222.  For port 22 the
    claim gives 2222; [get_ssh_port], reading the output as Python 3 does,
    returns [None]. *)
Lemma get_ssh_port_numeric_counterexample :
  output_lines port_padded_crlf = ["1,default,forwarded_port,022,2222"; ""]
  ∧ List.find (port_line_numeric 22) (output_lines port_padded_crlf) =
    Some "1,default,forwarded_port,022,2222"
  ∧ Py.int (field 4 "1,default,forwarded_port,022,2222") = Some 22
  ∧ Py.int (field 5 "1,default,forwarded_port,022,2222") = Some 2222
  ∧ resolve_port_spec port_padded_crlf 22 = Some 2222
  ∧ get_ssh_port (sample_vagrant "" (Py.bytes_repr port_padded_crlf))
      "default" 22 sample_world =
    (with_call (port_command "default") sample_world, Ret None).
Proof. repeat split; reflexivity. Qed.

(** C3 at outputs the source does not cut into lines.  The output
    [status_lf] has two guest-state lines ended by line feeds, so the claim
    gives the two identifiers [default] and [db]; [get_machines] returns
    [default] alone, both when [str(output)] is the output itself (Python 2)
    and when it is the text of a bytes object (Python 3).  The same output
    with lines ended by CR LF, [status_crlf], gives [default] alone when
    [str(output)] is the output itself. *)
Theorem get_machines_misses_lines :
  length (List.filter state_line (output_lines status_lf)) = 2%nat
  ∧ list_guests_spec status_lf = ["default"; "db"]
  ∧ get_machines (sample_vagrant status_lf "") sample_world =
    (with_call status_command sample_world, Ret ["default"])
  ∧ get_machines (sample_vagrant (Py.bytes_repr status_lf) "") sample_world =
    (with_call status_command sample_world, Ret ["default"])
  ∧ list_guests_spec status_crlf = ["default"; "db"]
  ∧ get_machines (sample_vagrant status_crlf "") sample_world =
    (with_call status_command sample_world, Ret ["default"]).
Proof. repeat split; reflexivity. Qed.

Lemma get_ssh_port_bad_port_field_witness :
  sample_vagrant "" port_not_a_number (cwd sample_world) (calls sample_world)
    (port_command "default") = Some port_not_a_number
  ∧ List.find (port_line 22) (lines_of port_not_a_number) =
    Some "1,default,forwarded_port,22,abc"
  ∧ Py.int (field 5 "1,default,forwarded_port,22,abc") = None
  ∧ get_ssh_port (sample_vagrant "" port_not_a_number) "default" 22
      sample_world =
    (with_call (port_command "default") sample_world, Raise ValueError).
Proof.
  split; [reflexivity|]. split; [reflexivity|]. split; [reflexivity|].
  apply (get_ssh_port_bad_port_field (sample_vagrant "" port_not_a_number)
           sample_world "default" port_not_a_number
           "1,default,forwarded_port,22,abc" 22); reflexivity.
Defined.

Lemma populate_guest_groups_witness :
  sample_results !! "default" = Some sample_machine
  ∧ "default" ∈ inv_hosts (populate sample_results empty_inventory)
  ∧ ("vagrant_machines", "default")
      ∈ inv_members (populate sample_results empty_inventory)
  ∧ ("running", "default")
      ∈ inv_members (populate sample_results empty_inventory)
  ∧ inv_vars (populate sample_results empty_inventory)
      !! ("default", "ansible_port") = Some (VInt 2222)
  ∧ ("not_running", "default")
      ∉ inv_members (populate sample_results empty_inventory).
Proof.
  assert (sample_results !! "default" = Some sample_machine) as Hm
    by reflexivity.
  split; [exact Hm|].
  pose proof (populate_guest_groups sample_results empty_inventory
                "default" sample_machine Hm) as H.
  cbv zeta in H.
  change (sample_machine !! "ssh_port") with (Some 2222) in H.
  destruct H as (Hh & Hv & Hr & Hp & Hn).
  repeat (split; [assumption|]).
  intros Hin. apply Hn in Hin. by apply not_elem_of_empty in Hin.
Defined.

Lemma parse_cache_off_unbound_witness :
  opt_cache {| opt_cache := false; opt_project_path := "/home/example/vagrant/";
               opt_ssh_port := 22 |} = false
  ∧ parse (sample_vagrant status_one port_2222) every_dir path_key
      {| opt_cache := false; opt_project_path := "/home/example/vagrant/";
         opt_ssh_port := 22 |} "/etc/ansible/vagrant.yml" true sample_world =
    (sample_world, Raise (UnboundLocalError "results")).
Proof.
  split; [reflexivity|].
  apply (parse_cache_off_unbound (sample_vagrant status_one port_2222)
           every_dir path_key); reflexivity.
Defined.

Lemma fetch_relative_path_name_error_witness :
  Py.isabs (opt_project_path
              {| opt_cache := true; opt_project_path := "vms";
                 opt_ssh_port := 22 |}) = false
  ∧ fetch (sample_vagrant status_one port_2222) every_dir
      {| opt_cache := true; opt_project_path := "vms"; opt_ssh_port := 22 |}
      sample_world =
    (sample_world, Raise (NameError "path")).
Proof.
  split; [reflexivity|].
  apply (fetch_relative_path_name_error (sample_vagrant status_one port_2222)
           every_dir); reflexivity.
Defined.

(** C5 at a port of zero: the port command reports host port 0 for guest
    port 22, [get_ssh_port] finds it, and the record [fetch] builds for the
    machine has no [ssh_port]. *)
Theorem fetch_drops_port_zero :
  ssh_port_of port_zero 22 = Ret (Some 0)
  ∧ (fetch (sample_vagrant status_one port_zero) every_dir sample_options
       sample_world).2 = Ret {["default" := ∅]}.
Proof. split; reflexivity. Qed.

Lemma parse_reads_cache_witness :
  opt_cache sample_options = true
  ∧ parse (sample_vagrant status_one port_2222) every_dir path_key
      sample_options "/etc/ansible/vagrant.yml" true
      (cache_set "/etc/ansible/vagrant.yml" sample_results sample_world).1 =
    (with_inventory (populate sample_results empty_inventory)
       (cache_set "/etc/ansible/vagrant.yml" sample_results sample_world).1,
     Ret tt)
  ∧ calls (parse (sample_vagrant status_one port_2222) every_dir path_key
             sample_options "/etc/ansible/vagrant.yml" true
             (cache_set "/etc/ansible/vagrant.yml" sample_results
                sample_world).1).1 = [].
Proof.
  split; [reflexivity|].
  destruct (parse_reads_cache (sample_vagrant status_one port_2222) every_dir
              path_key sample_options "/etc/ansible/vagrant.yml" sample_world
              sample_results eq_refl) as [_ (_ & Hparse & Hcalls)].
  split; [exact Hparse|exact Hcalls].
Defined.

Lemma parse_fetch_all_or_nothing_witness :
  opt_cache sample_options = true
  ∧ (false = false
     ∨ cache_store sample_world !! path_key "/etc/ansible/vagrant.yml" = None)
  ∧ ∃ w1,
      parse (sample_vagrant status_two port_2222) every_dir path_key
        sample_options "/etc/ansible/vagrant.yml" false sample_world =
        (w1, Ret tt)
      ∧ ("running", "default") ∈ inv_members (inventory w1)
      ∧ ("running", "db") ∈ inv_members (inventory w1).
Proof.
  split; [reflexivity|]. split; [left; reflexivity|].
  destruct (parse_fetch_all_or_nothing (sample_vagrant status_two port_2222)
              every_dir path_key sample_options "/etc/ansible/vagrant.yml"
              false sample_world eq_refl (or_introl eq_refl))
    as [(w1 & results & text & Hfetch & _ & _ & _ & _ & Hparse)
       |(w1 & e & Hfetch & _)].
  - eexists. split; [exact Hparse|].
    injection Hfetch as _ <-. simpl.
    split; apply populate_members; right; eexists;
      (split; [reflexivity|right; left; split; [reflexivity|eexists; reflexivity]]).
  - discriminate Hfetch.
Defined.







(** A text that holds line feeds and no [line_sep] is one line to both
    parsers: the second machine is not seen. *)
Example real_newlines_do_not_split :
  lines_of ("1,default,state,running" ++ lf ++ "1,db,state,poweroff" ++ lf)
  = ["1,default,state,running" ++ lf ++ "1,db,state,poweroff" ++ lf]
  ∧ machines_of
      ("1,default,state,running" ++ lf ++ "1,db,state,poweroff" ++ lf)
    = ["default"].
Proof. split; reflexivity. Qed.

(** The examples of the spec, with lines ended by [line_sep]. *)
Example spec_example_fetch :
  (fetch (sample_vagrant "default,default,state,running\r\n"
            "default,default,forwarded_port,22,2222\r\n")
     every_dir sample_options sample_world).2
  = Ret {["default" := {["ssh_port" := 2222]}]}.
Proof. reflexivity. Qed.

Example spec_example_populate :
  populate {["default" := {["ssh_port" := 2222]}]} empty_inventory =
  {| inv_groups := {["vagrant_machines"; "not_running"; "running"]};
     inv_hosts := {["default"]};
     inv_members := {[("vagrant_machines", "default"); ("running", "default")]};
     inv_vars := {[("vagrant_machines", "ansible_host") := VStr "127.0.0.1";
                   ("vagrant_machines", "ansible_user") := VStr "vagrant";
                   ("default", "ansible_port") := VInt 2222]} |}.
Proof.
  apply inv_eq; simpl.
  - vm_compute. reflexivity.
  - vm_compute. reflexivity.
  - vm_compute. reflexivity.
  - vm_compute. reflexivity.
Qed.

Example spec_example_no_state_lines :
  (fetch (sample_vagrant "1,default,metadata,provider,virtualbox\r\n" "")
     every_dir sample_options sample_world).2 = Ret ∅
  ∧ inv_hosts (populate ∅ empty_inventory) = ∅.
Proof. split; reflexivity. Qed.

(** [str(output)] under Python 3 for the two sample status outputs. *)
Example bytes_repr_crlf :
  Py.bytes_repr status_crlf =
  "b'1,default,state,running\r\n1,db,state,poweroff\r\n'".
Proof. reflexivity. Qed.

Example bytes_repr_lf :
  Py.bytes_repr status_lf = "b'1,default,state,running\n1,db,state,poweroff\n'".
Proof. reflexivity. Qed.
